(** * croissant: the RDF graph walker and the Metadata node

    A shallow embedding of
      - [ml_croissant/_src/rdf_graph/graph.py]
        ([_find_entry_object], [check_rdf_graph]) and
      - [ml_croissant/_src/structure_graph/nodes/metadata.py]
        (the frozen dataclass [Metadata] and its [__post_init__]).

    The collaborators these two files import ([core.issues.Issues],
    [structure_graph.base_node.Node], [structure_graph.graph.children_nodes]
    and [from_rdf_graph], [core.constants]) are modelled from the
    specification; each such definition says so in its comment. *)

From Stdlib Require Import String Ascii List Bool Arith Lia.
Import ListNotations.
Open Scope string_scope.
Open Scope list_scope.

Set Implicit Arguments.

(** ** RDF terms and the NetworkX multigraph *)

(** [rdflib.term]: a graph node is a blank node, an IRI or a literal. *)
Inductive Term : Type :=
| BNode (id : string)
| URIRef (iri : string)
| Literal (value : string).

Definition Term_eqb (a b : Term) : bool :=
  match a, b with
  | BNode x, BNode y => String.eqb x y
  | URIRef x, URIRef y => String.eqb x y
  | Literal x, Literal y => String.eqb x y
  | _, _ => false
  end.

(** [isinstance(node, rdflib.term.BNode)] *)
Definition is_BNode (t : Term) : bool :=
  match t with BNode _ => true | _ => false end.

(** One edge [subject -> object] of the multigraph, keyed by its predicate. *)
Record Edge : Type := mkEdge {
  subject : Term;
  property : string;
  object : Term
}.

(** [nx.MultiDiGraph]: the nodes in insertion order and the keyed edges in
    insertion order.  NetworkX stores a node once: [NoDup (nodes g)] holds of
    every graph it builds. *)
Record MultiDiGraph : Type := mkGraph {
  nodes : list Term;
  edges : list Edge
}.

(** [graph.in_degree(n)]: the number of edges that arrive at [n]. *)
Definition in_degree (g : MultiDiGraph) (n : Term) : nat :=
  length (filter (fun e => Term_eqb (object e) n) (edges g)).

(** [graph.in_degree(graph.nodes())]: the pairs (node, in-degree), in node
    order. *)
Definition in_degree_view (g : MultiDiGraph) : list (Term * nat) :=
  map (fun n => (n, in_degree g n)) (nodes g).

(** ** The diagnostics collector *)

(** Modelled from the spec: [core.issues] is absent.  The Diagnostic Context
    maps the four named scopes to their current values. *)
Record Context : Type := mkContext {
  dataset_name : option string;
  distribution_name : option string;
  record_set_name : option string;
  field_name : option string
}.

Definition empty_context : Context := mkContext None None None None.

Inductive Severity : Type := Error | Warning.

(** Modelled from the spec: an issue is a severity, a message and the
    Diagnostic Context active when it was raised. *)
Record Issue : Type := mkIssue {
  severity : Severity;
  message : string;
  context : Context
}.

(** Modelled from the spec: the collector accumulates the issues in the order
    they were raised and holds the current context. *)
Record Issues : Type := mkIssues {
  log : list Issue;
  local_context : Context
}.

Definition fresh_issues : Issues := mkIssues [] empty_context.

(** ** Python control flow: shared collector, exceptions *)

Inductive Exception : Type :=
| IndexError
| FrozenInstanceError.

Inductive Outcome (A : Type) : Type :=
| Return (a : A)
| Raise (e : Exception).
Arguments Raise {A} e.

(** A Python computation that mutates the one [Issues] object in place and
    either returns or raises. *)
Definition Py (A : Type) : Type := Issues -> Outcome A * Issues.

Definition ret {A} (a : A) : Py A := fun s => (Return a, s).

Definition raise {A} (e : Exception) : Py A := fun s => (Raise e, s).

Definition bind {A B} (m : Py A) (k : A -> Py B) : Py B :=
  fun s =>
    match m s with
    | (Return a, s') => k a s'
    | (Raise e, s') => (Raise e, s')
    end.

Notation "x <- m ;; k" := (bind m (fun x => k))
  (at level 61, m at next level, right associativity).
Notation "m ;;; k" := (bind m (fun _ => k))
  (at level 61, right associativity).

(** Modelled from the spec: [issues.add_error(msg)] records an error tagged
    with the context active now. *)
Definition add_error (msg : string) : Py unit :=
  fun s => (Return tt,
            mkIssues (log s ++ [mkIssue Error msg (local_context s)])
                     (local_context s)).

(** Modelled from the spec: [issues.add_warning(msg)]. *)
Definition add_warning (msg : string) : Py unit :=
  fun s => (Return tt,
            mkIssues (log s ++ [mkIssue Warning msg (local_context s)])
                     (local_context s)).

Definition or_else {A} (new old : option A) : option A :=
  match new with Some _ => new | None => old end.

(** The keyword arguments of [issues.context(...)] are the scopes that are
    given; a scope that is not given keeps its value. *)
Definition override (kwargs cur : Context) : Context :=
  mkContext (or_else (dataset_name kwargs) (dataset_name cur))
            (or_else (distribution_name kwargs) (distribution_name cur))
            (or_else (record_set_name kwargs) (record_set_name cur))
            (or_else (field_name kwargs) (field_name cur)).

(** Modelled from the spec: [with issues.context(scope=value, ...): body] overrides
    the given scopes for the body and restores the previous context on exit,
    also when the body raises. *)
Definition with_context {A} (kwargs : Context) (body : Py A) : Py A :=
  fun s =>
    let saved := local_context s in
    let (r, s') := body (mkIssues (log s) (override kwargs saved)) in
    (r, mkIssues (log s') saved).

(** [for x in xs: acc = body(x, acc)] on a local accumulator. *)
Fixpoint for_each {A B} (xs : list A) (acc : B) (body : A -> B -> Py B) : Py B :=
  match xs with
  | [] => ret acc
  | x :: rest => acc' <- body x acc ;; for_each rest acc' body
  end.

(** ** rdf_graph/graph.py: the entry resolver *)

Definition MORE_THAN_ONE_DATASET : string :=
  "Trying to define more than one dataset in the file.".

(** The list comprehension of [_find_entry_object]. *)
Definition sources (g : MultiDiGraph) : list Term :=
  map fst
      (filter (fun ni => Nat.eqb (snd ni) 0 && is_BNode (fst ni))
              (in_degree_view g)).

(** [sources[0]] *)
Definition first {A} (l : list A) : Py A :=
  match l with
  | x :: _ => ret x
  | [] => raise IndexError
  end.

Definition _find_entry_object (graph : MultiDiGraph) : Py Term :=
  (if negb (Nat.eqb (length (sources graph)) 1)
   then add_error MORE_THAN_ONE_DATASET
   else ret tt) ;;;
  first (sources graph).

(** ** Typed nodes *)

(** The five node kinds of the hierarchy. *)
Inductive Variant : Type :=
| VMetadata
| VDistribution
| VRecordSet
| VField
| VSubField.

(** A dataclass instance: its class, the [node] it was read from (a field of
    the base class) and its own fields in declaration order.  A field typed
    [str | None] or [str] holds [None] or [Some s]. *)
Record Node : Type := mkNode {
  variant : Variant;
  node : Term;
  attrs : list (string * option string)
}.

(** [class Metadata(Node)]: the declared fields with their defaults. *)
Definition Metadata_fields : list (string * option string) :=
  [ ("citation", None);
    ("description", None);
    ("license", None);
    ("name", Some "");
    ("url", Some "") ].


(** The generated [__init__] of [Metadata], before [__post_init__] runs. *)
Definition Metadata (node : Term) (citation description license : option string)
           (name url : string) : Node :=
  mkNode VMetadata node
         [ ("citation", citation);
           ("description", description);
           ("license", license);
           ("name", Some name);
           ("url", Some url) ].

Fixpoint lookup (key : string) (l : list (string * option string))
  : option (option string) :=
  match l with
  | [] => None
  | (k, v) :: rest => if String.eqb k key then Some v else lookup key rest
  end.

(** [getattr(self, prop)]; an attribute that is [None] and one the class does
    not declare both read as [None]. *)
Definition getattr (self : Node) (prop : string) : option string :=
  match lookup prop (attrs self) with
  | Some v => v
  | None => None
  end.

(** [node.name], a [str]. *)
Definition name (self : Node) : string :=
  match getattr self "name" with
  | Some s => s
  | None => ""
  end.

(** Python truthiness of a [str | None]: [not value]. *)
Definition falsy (value : option string) : bool :=
  match value with
  | None => true
  | Some s => String.eqb s ""
  end.








(** The four edge predicates the walker follows ([core.constants]). *)
Inductive ChildPredicate : Type :=
| SCHEMA_ORG_DISTRIBUTION
| ML_COMMONS_RECORD_SET
| ML_COMMONS_FIELD
| ML_COMMONS_SUB_FIELD.

(** Modelled from the spec: the kind each edge predicate leads to (steps 2 to
    5 of the walker). *)
Definition child_variant (p : ChildPredicate) : Variant :=
  match p with
  | SCHEMA_ORG_DISTRIBUTION => VDistribution
  | ML_COMMONS_RECORD_SET => VRecordSet
  | ML_COMMONS_FIELD => VField
  | ML_COMMONS_SUB_FIELD => VSubField
  end.

(** Modelled from the spec: the external, static schema table, which is not
    part of the sources: the IRIs of the four edge predicates, the predicate
    that carries each field, the declarations of the node classes other than
    [Metadata], and the notices the optional-property check issues as
    warnings. *)
Record Schema : Type := mkSchema {
  iri : ChildPredicate -> string;
  predicate_of : string -> string;
  declared_fields : Variant -> list (string * option string);
  declared_mandatory : Variant -> list string;
  declared_optional : Variant -> list string;
  optional_notice : string -> option string -> list string
}.

Definition MANDATORY_PREFIX : string := "Mandatory property is missing: ".

(** Modelled from the spec: the property error names the field. *)
Definition mandatory_message (prop : string) : string :=
  MANDATORY_PREFIX ++ prop.

Definition NO_FIELD : string := "The node doesn't define any field.".

(** [for x in xs: body(x)] *)
Fixpoint for_ {A} (xs : list A) (body : A -> Py unit) : Py unit :=
  match xs with
  | [] => ret tt
  | x :: rest => body x ;;; for_ rest body
  end.

(** Modelled from the spec: [base_node.Node.assert_has_mandatory_properties]
    is absent.  Every listed property that is absent or empty is an error
    that references its name. *)
Definition assert_has_mandatory_properties (self : Node)
           (mandatory_properties : list string) : Py unit :=
  for_ mandatory_properties (fun mandatory_property =>
    if falsy (getattr self mandatory_property)
    then add_error (mandatory_message mandatory_property)
    else ret tt).

Section WithSchema.

Variable schema : Schema.

(** Modelled from the spec: [base_node.Node.assert_has_optional_properties]
    is absent.  It looks at the listed properties only and never records an
    error; its notices are warnings. *)
Definition assert_has_optional_properties (self : Node)
           (optional_properties : list string) : Py unit :=
  for_ optional_properties (fun optional_property =>
    for_ (optional_notice schema optional_property
                          (getattr self optional_property))
         add_warning).

(** [Metadata.__post_init__] *)
Definition Metadata__post_init__ (self : Node) : Py unit :=
  assert_has_mandatory_properties self ["name"; "url"] ;;;
  assert_has_optional_properties self ["citation"; "license"].

(** The fields, with defaults, of each class. *)
Definition fields_of (v : Variant) : list (string * option string) :=
  match v with
  | VMetadata => Metadata_fields
  | _ => declared_fields schema v
  end.

(** The names each class passes to [assert_has_mandatory_properties]. *)
Definition mandatory_of (v : Variant) : list string :=
  match v with
  | VMetadata => ["name"; "url"]
  | _ => declared_mandatory schema v
  end.

(** The names each class passes to [assert_has_optional_properties]. *)
Definition optional_of (v : Variant) : list string :=
  match v with
  | VMetadata => ["citation"; "license"]
  | _ => declared_optional schema v
  end.

(** [__post_init__] of each class; the classes other than [Metadata] are
    modelled from the spec: each checks its declared mandatory and optional
    names. *)
Definition __post_init__ (self : Node) : Py unit :=
  match variant self with
  | VMetadata => Metadata__post_init__ self
  | v =>
      assert_has_mandatory_properties self (declared_mandatory schema v) ;;;
      assert_has_optional_properties self (declared_optional schema v)
  end.

(** The value a term stands for: blank nodes are structure, IRIs and literals
    are terminal values. *)
Definition value_of (t : Term) : option string :=
  match t with
  | BNode _ => None
  | URIRef s => Some s
  | Literal s => Some s
  end.

Fixpoint first_value (ts : list Term) : option string :=
  match ts with
  | [] => None
  | t :: rest =>
      match value_of t with
      | Some s => Some s
      | None => first_value rest
      end
  end.

(** [out(n, p)]: the targets of the edges that leave [n] with predicate [p],
    in edge-insertion order. *)
Definition out (g : MultiDiGraph) (n : Term) (p : string) : list Term :=
  map object
      (filter (fun e => Term_eqb (subject e) n && String.eqb (property e) p)
              (edges g)).

(** Modelled from the spec: the value of a field of the node at [n], read
    from the properties of [n] through the schema table. *)
Definition resolve (g : MultiDiGraph) (n : Term) (field : string)
  : option string :=
  first_value (out g n (predicate_of schema field)).

(** Modelled from the spec: the instance built for position [n]: a field
    takes the value found in the graph, or else its default. *)
Definition construct (g : MultiDiGraph) (n : Term) (v : Variant) : Node :=
  mkNode v n
         (map (fun fd =>
                 (fst fd,
                  match resolve g n (fst fd) with
                  | Some s => Some s
                  | None => snd fd
                  end))
              (fields_of v)).

(** Modelled from the spec: [structure_graph.graph.from_rdf_graph] is absent.
    It builds the node of the given kind, whose [__post_init__] checks the
    contract, and returns the node whatever was recorded. *)
Definition from_rdf_graph (graph : MultiDiGraph) (n : Term) (v : Variant)
  : Py Node :=
  let self := construct graph n v in
  __post_init__ self ;;;
  ret self.

(** The first occurrence of each element, in order. *)
Fixpoint distinct (l : list Term) : list Term :=
  match l with
  | [] => []
  | x :: rest => x :: filter (fun y => negb (Term_eqb y x)) (distinct rest)
  end.

(** Modelled from the spec: [children(node, predicate)], the distinct targets
    of the edges labelled [predicate] that leave [node]. *)
Definition children (g : MultiDiGraph) (n : Term) (p : ChildPredicate)
  : list Term :=
  distinct (out g n (iri schema p)).

Fixpoint mapM {A B} (f : A -> Py B) (xs : list A) : Py (list B) :=
  match xs with
  | [] => ret []
  | x :: rest => y <- f x ;; ys <- mapM f rest ;; ret (y :: ys)
  end.

(** Modelled from the spec: [structure_graph.graph.children_nodes] is absent.
    It materializes every child, in [children] order; the graph, which the
    Python node carries, is passed next to it. *)
Definition children_nodes (graph : MultiDiGraph) (parent : Node)
           (expected_property : ChildPredicate) : Py (list Node) :=
  mapM (fun child => from_rdf_graph graph child (child_variant expected_property))
       (children graph (node parent) expected_property).

(** ** rdf_graph/graph.py: the hierarchy walker *)

(** The body of [for record_set in record_sets], on the local [nodes]. *)
Definition record_set_scope (graph : MultiDiGraph) (dataset_name : string)
           (record_set : Node) (nodes : list Node) : Py (list Node) :=
  with_context
    (mkContext (Some dataset_name) None (Some (name record_set)) (Some ""))
    (fields <- children_nodes graph record_set ML_COMMONS_FIELD ;;
     let nodes := nodes ++ fields in
     (if Nat.eqb (length fields) 0 then add_error NO_FIELD else ret tt) ;;;
     for_each fields nodes (fun field nodes =>
       sub_fields <- children_nodes graph field ML_COMMONS_SUB_FIELD ;;
       ret (nodes ++ sub_fields))).

Definition check_rdf_graph (graph : MultiDiGraph) : Py (list Node) :=
  source <- _find_entry_object graph ;;
  metadata <- from_rdf_graph graph source VMetadata ;;
  let nodes := [metadata] in
  let dataset_name := name metadata in
  nodes <- with_context
             (mkContext (Some dataset_name) (Some "") None None)
             (distributions <-
                children_nodes graph metadata SCHEMA_ORG_DISTRIBUTION ;;
              ret (nodes ++ distributions)) ;;
  record_sets <- children_nodes graph metadata ML_COMMONS_RECORD_SET ;;
  let nodes := nodes ++ record_sets in
  nodes <- for_each record_sets nodes (record_set_scope graph dataset_name) ;;
  ret nodes.

End WithSchema.

(** ** What a run records, as pure functions of the graph

    The walker only ever appends to the log and leaves the context as it
    found it; the functions below give, for each operation, the nodes it
    returns and the issues it appends under a given context.  The lemmas of
    the next part prove that the operations compute them. *)

Section Denotation.

Variable schema : Schema.

Definition missing (self : Node) (props : list string) : list string :=
  filter (fun p => falsy (getattr self p)) props.

Definition mandatory_errors (self : Node) (props : list string) (c : Context)
  : list Issue :=
  map (fun p => mkIssue Error (mandatory_message p) c) (missing self props).

Definition optional_warnings (self : Node) (props : list string) (c : Context)
  : list Issue :=
  map (fun m => mkIssue Warning m c)
      (flat_map (fun p => optional_notice schema p (getattr self p)) props).

Definition node_issues (self : Node) (c : Context) : list Issue :=
  mandatory_errors self (mandatory_of schema (variant self)) c ++
  optional_warnings self (optional_of schema (variant self)) c.

Definition child_list (g : MultiDiGraph) (parent : Node) (p : ChildPredicate)
  : list Node :=
  map (fun n => construct schema g n (child_variant p))
      (children schema g (node parent) p).

Definition child_issues (g : MultiDiGraph) (parent : Node) (p : ChildPredicate)
           (c : Context) : list Issue :=
  flat_map (fun self => node_issues self c) (child_list g parent p).

Definition scope_context (dataset : string) (record_set : Node) (c : Context)
  : Context :=
  override (mkContext (Some dataset) None (Some (name record_set)) (Some "")) c.

Definition scope_nodes (g : MultiDiGraph) (record_set : Node) : list Node :=
  child_list g record_set ML_COMMONS_FIELD ++
  flat_map (fun field => child_list g field ML_COMMONS_SUB_FIELD)
           (child_list g record_set ML_COMMONS_FIELD).

Definition no_field_error (g : MultiDiGraph) (record_set : Node) (c : Context)
  : list Issue :=
  if Nat.eqb (length (child_list g record_set ML_COMMONS_FIELD)) 0
  then [mkIssue Error NO_FIELD c]
  else [].

Definition scope_issues (g : MultiDiGraph) (dataset : string)
           (record_set : Node) (c : Context) : list Issue :=
  let c' := scope_context dataset record_set c in
  child_issues g record_set ML_COMMONS_FIELD c' ++
  no_field_error g record_set c' ++
  flat_map (fun field => child_issues g field ML_COMMONS_SUB_FIELD c')
           (child_list g record_set ML_COMMONS_FIELD).

Definition distribution_context (dataset : string) (c : Context) : Context :=
  override (mkContext (Some dataset) (Some "") None None) c.

(** The nodes of the walk that starts at the entry [source]. *)
Definition walk_nodes (g : MultiDiGraph) (source : Term) : list Node :=
  let metadata := construct schema g source VMetadata in
  let record_sets := child_list g metadata ML_COMMONS_RECORD_SET in
  [metadata] ++
  child_list g metadata SCHEMA_ORG_DISTRIBUTION ++
  record_sets ++
  flat_map (scope_nodes g) record_sets.

(** The issues of the walk that starts at the entry [source], after the
    entry resolver. *)
Definition walk_issues (g : MultiDiGraph) (source : Term) (c : Context)
  : list Issue :=
  let metadata := construct schema g source VMetadata in
  let record_sets := child_list g metadata ML_COMMONS_RECORD_SET in
  node_issues metadata c ++
  child_issues g metadata SCHEMA_ORG_DISTRIBUTION
               (distribution_context (name metadata) c) ++
  child_issues g metadata ML_COMMONS_RECORD_SET c ++
  flat_map (fun rs => scope_issues g (name metadata) rs c) record_sets.

(** The issues of the entry resolver. *)
Definition entry_issues (g : MultiDiGraph) (c : Context) : list Issue :=
  if Nat.eqb (length (sources g)) 1 then []
  else [mkIssue Error MORE_THAN_ONE_DATASET c].

End Denotation.

(** The issues a run appended to the log it started from. *)
Definition appended (before after : Issues) : list Issue :=
  skipn (length (log before)) (log after).

Definition is_error (i : Issue) : bool :=
  match severity i with Error => true | Warning => false end.

(** The structural errors are the two that [graph.py] records itself. *)
Definition is_structural (i : Issue) : bool :=
  is_error i &&
  (String.eqb (message i) NO_FIELD ||
   String.eqb (message i) MORE_THAN_ONE_DATASET).

Definition is_no_field (i : Issue) : bool :=
  is_error i && String.eqb (message i) NO_FIELD.

(** The property errors that reference the field [prop]. *)
Definition is_property_error (prop : string) (i : Issue) : bool :=
  is_error i && String.eqb (message i) (mandatory_message prop).

(** A blank node without a parent. *)
Definition entry_candidate (g : MultiDiGraph) (n : Term) : Prop :=
  In n (nodes g) /\ in_degree g n = 0 /\ is_BNode n = true.

(** A computation that returns [a], appends [w] and keeps the context. *)
Definition records {A} (m : Py A) (s : Issues) (a : A) (w : list Issue) : Prop :=
  m s = (Return a, mkIssues (log s ++ w) (local_context s)).

(** ** Well-declared classes *)

Fixpoint no_repeat (l : list string) : bool :=
  match l with
  | [] => true
  | x :: rest => negb (existsb (String.eqb x) rest) && no_repeat rest
  end.

(** Every mandatory name is a declared field whose default is empty. *)
Definition defaults_empty (schema : Schema) (v : Variant) : bool :=
  forallb (fun p =>
             match lookup p (fields_of schema v) with
             | Some d => falsy d
             | None => false
             end)
          (mandatory_of schema v).

(** A class lists each mandatory name once and gives it an empty default, as
    [Metadata] does. *)
Definition well_declared (schema : Schema) (v : Variant) : bool :=
  no_repeat (mandatory_of schema v) && defaults_empty schema v.

(** ** Statements of the specification, as written *)


(** "A record set is followed immediately by its fields and each field's
    sub-fields": the record set and its scope form one block of the output. *)
Definition immediately_before (x : Node) (ys l : list Node) : Prop :=
  exists pre post, l = pre ++ x :: ys ++ post.

Definition record_sets_precede_their_fields (schema : Schema)
           (g : MultiDiGraph) (s : Issues) : Prop :=
  forall source rest out record_set,
    sources g = source :: rest ->
    let record_sets :=
      child_list schema g (construct schema g source VMetadata)
                 ML_COMMONS_RECORD_SET in
    2 <= length record_sets ->
    fst (check_rdf_graph schema g s) = Return out ->
    In record_set record_sets ->
    immediately_before record_set (scope_nodes schema g record_set) out.

(** "Every error recorded after the dataset_name scope is pushed carries
    dataset_name = metadata.name": the errors that follow those of the entry
    resolver and of the metadata node. *)
Definition errors_after_push_name_dataset (schema : Schema)
           (g : MultiDiGraph) (s : Issues) : Prop :=
  forall source rest i,
    sources g = source :: rest ->
    let metadata := construct schema g source VMetadata in
    let before :=
      entry_issues g (local_context s) ++
      node_issues schema metadata (local_context s) in
    In i (skipn (length before)
                (appended s (snd (check_rdf_graph schema g s)))) ->
    is_error i = true ->
    dataset_name (context i) = Some (name metadata).


(** ** Sample schema and graphs *)

Definition sample_schema : Schema :=
  mkSchema
    (fun p =>
       match p with
       | SCHEMA_ORG_DISTRIBUTION => "https://schema.org/distribution"
       | ML_COMMONS_RECORD_SET => "http://mlcommons.org/schema/recordSet"
       | ML_COMMONS_FIELD => "http://mlcommons.org/schema/field"
       | ML_COMMONS_SUB_FIELD => "http://mlcommons.org/schema/subField"
       end)
    (fun field => ("https://schema.org/" ++ field)%string)
    (fun _ => [("description", None); ("name", Some "")])
    (fun _ => ["name"])
    (fun _ => ["description"])
    (fun _ _ => []).

Definition named (n : Term) (s : string) : Edge :=
  mkEdge n "https://schema.org/name" (Literal s).

Definition child (p : ChildPredicate) (parent n : Term) : Edge :=
  mkEdge parent (iri sample_schema p) n.

Definition m_ : Term := BNode "m".
Definition d1_ : Term := BNode "d1".
Definition d2_ : Term := BNode "d2".
Definition r1_ : Term := BNode "r1".
Definition r2_ : Term := BNode "r2".
Definition a_ : Term := BNode "a".
Definition b_ : Term := BNode "b".

(** Metadata "Titanic" with distributions d1, d2 and record sets r1 (fields
    a, b) and r2 (no field). *)
Definition titanic : MultiDiGraph :=
  mkGraph
    [ m_; Literal "Titanic"; Literal "https://example.org/titanic";
      d1_; Literal "d1"; d2_; Literal "d2";
      r1_; Literal "r1"; r2_; Literal "r2";
      a_; Literal "a"; b_; Literal "b" ]
    [ named m_ "Titanic";
      mkEdge m_ "https://schema.org/url" (Literal "https://example.org/titanic");
      child SCHEMA_ORG_DISTRIBUTION m_ d1_; named d1_ "d1";
      child SCHEMA_ORG_DISTRIBUTION m_ d2_; named d2_ "d2";
      child ML_COMMONS_RECORD_SET m_ r1_; named r1_ "r1";
      child ML_COMMONS_RECORD_SET m_ r2_; named r2_ "r2";
      child ML_COMMONS_FIELD r1_ a_; named a_ "a";
      child ML_COMMONS_FIELD r1_ b_; named b_ "b" ].

(** Two datasets in one file: two blank nodes without a parent. *)
Definition two_datasets : MultiDiGraph :=
  mkGraph
    [ BNode "m1"; Literal "First"; BNode "m2"; Literal "Second" ]
    [ named (BNode "m1") "First"; named (BNode "m2") "Second" ].

(** A dataset whose top node has an IRI, so that no blank node is without a
    parent: the graph of [{"@id": "http://example.org/dataset", "name":
    "Titanic"}]. *)
Definition iri_dataset : MultiDiGraph :=
  mkGraph
    [ URIRef "http://example.org/dataset"; Literal "Titanic" ]
    [ named (URIRef "http://example.org/dataset") "Titanic" ].

(** Metadata "Titanic" with one record set that has a field but no name. *)
Definition unnamed_record_set : MultiDiGraph :=
  mkGraph
    [ m_; Literal "Titanic"; Literal "https://example.org/titanic";
      r1_; a_; Literal "a" ]
    [ named m_ "Titanic";
      mkEdge m_ "https://schema.org/url" (Literal "https://example.org/titanic");
      child ML_COMMONS_RECORD_SET m_ r1_;
      child ML_COMMONS_FIELD r1_ a_; named a_ "a" ].

(** A metadata node without name and url. *)
Definition anonymous_dataset : MultiDiGraph :=
  mkGraph
    [ m_; Literal "CC0" ]
    [ mkEdge m_ "https://schema.org/license" (Literal "CC0") ].

(** Metadata "Titanic" with two record sets that share the field a. *)
Definition shared_field : MultiDiGraph :=
  mkGraph
    [ m_; Literal "Titanic"; Literal "https://example.org/titanic";
      r1_; Literal "r1"; r2_; Literal "r2"; a_; Literal "a" ]
    [ named m_ "Titanic";
      mkEdge m_ "https://schema.org/url" (Literal "https://example.org/titanic");
      child ML_COMMONS_RECORD_SET m_ r1_; named r1_ "r1";
      child ML_COMMONS_RECORD_SET m_ r2_; named r2_ "r2";
      child ML_COMMONS_FIELD r1_ a_; named a_ "a";
      child ML_COMMONS_FIELD r2_ a_ ].

(** Metadata "Titanic" with a distribution without name and a record set
    without name, which has the field a. *)
Definition unnamed_children : MultiDiGraph :=
  mkGraph
    [ m_; Literal "Titanic"; Literal "https://example.org/titanic";
      d1_; r1_; a_; Literal "a" ]
    [ named m_ "Titanic";
      mkEdge m_ "https://schema.org/url" (Literal "https://example.org/titanic");
      child SCHEMA_ORG_DISTRIBUTION m_ d1_;
      child ML_COMMONS_RECORD_SET m_ r1_;
      child ML_COMMONS_FIELD r1_ a_; named a_ "a" ].

(** Two datasets in one file; the first has a record set with a field. *)
Definition first_of_two_datasets : MultiDiGraph :=
  mkGraph
    [ BNode "m1"; Literal "First"; r1_; Literal "r1"; a_; Literal "a";
      BNode "m2"; Literal "Second" ]
    [ named (BNode "m1") "First";
      child ML_COMMONS_RECORD_SET (BNode "m1") r1_; named r1_ "r1";
      child ML_COMMONS_FIELD r1_ a_; named a_ "a";
      named (BNode "m2") "Second";
      child ML_COMMONS_RECORD_SET (BNode "m2") r2_ ].

(** ** Tactics *)

(** Apply a lemma on runs at the state of the goal. *)
Ltac run_at_state lem :=
  match goal with |- records _ ?s _ _ => exact (lem s) end.

(** The terms of a concrete list are pairwise distinct. *)
Ltac nodup_terms :=
  repeat (constructor; [simpl; intuition discriminate |]); constructor.

(** ** Basic facts *)

Unset Implicit Arguments.

Lemma bind_raise {A B} (m : Py A) (k : A -> Py B) s e s' :
  m s = (Raise e, s') -> bind m k s = (Raise e, s').
Proof. unfold bind; intros ->; reflexivity. Qed.

Lemma issues_eta (s : Issues) : mkIssues (log s ++ []) (local_context s) = s.
Proof. destruct s; simpl; now rewrite app_nil_r. Qed.

Lemma records_ret {A} (a : A) s : records (ret a) s a [].
Proof. unfold records, ret; now rewrite issues_eta. Qed.

Lemma records_add_error msg s :
  records (add_error msg) s tt [mkIssue Error msg (local_context s)].
Proof. reflexivity. Qed.

Lemma records_add_warning msg s :
  records (add_warning msg) s tt [mkIssue Warning msg (local_context s)].
Proof. reflexivity. Qed.

Lemma records_bind {A B} (m : Py A) (k : A -> Py B) s a w b w' :
  records m s a w ->
  records (k a) (mkIssues (log s ++ w) (local_context s)) b w' ->
  records (bind m k) s b (w ++ w').
Proof.
  unfold records; intros Hm Hk.
  unfold bind; rewrite Hm, Hk; simpl.
  now rewrite app_assoc.
Qed.

Lemma records_with_context {A} kwargs (body : Py A) s a w :
  records body (mkIssues (log s) (override kwargs (local_context s))) a w ->
  records (with_context kwargs body) s a w.
Proof.
  unfold records, with_context; simpl; intros ->; reflexivity.
Qed.

Lemma records_weaken {A} (m : Py A) s a w w' :
  w = w' -> records m s a w -> records m s a w'.
Proof. now intros ->. Qed.

Lemma records_bind_ret {A B} (m : Py A) (f : A -> B) s a w :
  records m s a w -> records (x <- m ;; ret (f x)) s (f a) w.
Proof.
  intros H. apply records_weaken with (w := w ++ []); [apply app_nil_r |].
  eapply records_bind; [exact H | apply records_ret].
Qed.

Lemma records_for_ {A} (xs : list A) (body : A -> Py unit)
      (w : A -> Context -> list Issue) :
  (forall x s, records (body x) s tt (w x (local_context s))) ->
  forall s,
    records (for_ xs body) s tt (flat_map (fun x => w x (local_context s)) xs).
Proof.
  intros Hbody; induction xs as [|x rest IH]; intros s; simpl.
  - apply records_ret.
  - eapply records_bind; [apply Hbody |].
    exact (IH (mkIssues (log s ++ w x (local_context s)) (local_context s))).
Qed.

Lemma records_mapM {A B} (xs : list A) (f : A -> Py B) (r : A -> B)
      (w : A -> Context -> list Issue) :
  (forall x s, records (f x) s (r x) (w x (local_context s))) ->
  forall s,
    records (mapM f xs) s (map r xs)
            (flat_map (fun x => w x (local_context s)) xs).
Proof.
  intros Hf; induction xs as [|x rest IH]; intros s; simpl.
  - apply records_ret.
  - eapply records_bind; [apply Hf |].
    apply records_bind_ret with (f := fun ys => r x :: ys).
    exact (IH (mkIssues (log s ++ w x (local_context s)) (local_context s))).
Qed.

Lemma records_for_each {A B} (xs : list A) (body : A -> list B -> Py (list B))
      (r : A -> list B) (w : A -> Context -> list Issue) :
  (forall x acc s, records (body x acc) s (acc ++ r x) (w x (local_context s))) ->
  forall acc s,
    records (for_each xs acc body) s (acc ++ flat_map r xs)
            (flat_map (fun x => w x (local_context s)) xs).
Proof.
  intros Hbody; induction xs as [|x rest IH]; intros acc s; simpl.
  - rewrite app_nil_r. apply records_ret.
  - eapply records_bind; [apply Hbody |].
    rewrite app_assoc.
    exact (IH (acc ++ r x)
              (mkIssues (log s ++ w x (local_context s)) (local_context s))).
Qed.

(** ** The operations compute their denotations *)

Section Runs.

Variable schema : Schema.

Lemma assert_has_mandatory_properties_records self props s :
  records (assert_has_mandatory_properties self props) s tt
          (mandatory_errors self props (local_context s)).
Proof.
  unfold assert_has_mandatory_properties, mandatory_errors, missing.
  revert s; induction props as [|p rest IH]; intros s; simpl.
  - apply records_ret.
  - destruct (falsy (getattr self p)); simpl.
    + change (?e :: map ?f ?l) with ([e] ++ map f l).
      eapply records_bind; [apply records_add_error |].
      exact (IH (mkIssues (log s ++ [_]) (local_context s))).
    + change (map ?f ?l) with ([] ++ map f l).
      eapply records_bind; [apply records_ret |].
      rewrite issues_eta. apply IH.
Qed.

Lemma assert_has_optional_properties_records self props s :
  records (assert_has_optional_properties schema self props) s tt
          (optional_warnings schema self props (local_context s)).
Proof.
  unfold assert_has_optional_properties, optional_warnings.
  eapply records_weaken;
    [| apply records_for_ with
         (w := fun p c => map (fun m => mkIssue Warning m c)
                              (optional_notice schema p (getattr self p)))].
  - induction props as [|p rest IH]; simpl; [reflexivity |].
    now rewrite map_app, IH.
  - intros p t.
    eapply records_weaken;
      [| apply records_for_ with (w := fun m c => [mkIssue Warning m c])].
    + induction (optional_notice schema p (getattr self p)); simpl; congruence.
    + intros m u. apply records_add_warning.
Qed.

Lemma __post_init___records self s :
  records (__post_init__ schema self) s tt
          (node_issues schema self (local_context s)).
Proof.
  unfold __post_init__, node_issues, Metadata__post_init__.
  destruct (variant self); simpl;
    (eapply records_bind;
     [apply assert_has_mandatory_properties_records
     |exact (assert_has_optional_properties_records
               self _ (mkIssues (log s ++ _) (local_context s)))]).
Qed.

Lemma from_rdf_graph_records g n v s :
  records (from_rdf_graph schema g n v) s (construct schema g n v)
          (node_issues schema (construct schema g n v) (local_context s)).
Proof.
  unfold from_rdf_graph.
  apply records_bind_ret with (f := fun _ => construct schema g n v) (a := tt).
  apply __post_init___records.
Qed.

Lemma children_nodes_records g parent p s :
  records (children_nodes schema g parent p) s (child_list schema g parent p)
          (child_issues schema g parent p (local_context s)).
Proof.
  unfold children_nodes, child_issues, child_list.
  eapply records_weaken;
    [| apply records_mapM with
         (w := fun n c =>
                 node_issues schema (construct schema g n (child_variant p)) c)].
  - induction (children schema g (node parent) p) as [|n ns IH];
      [reflexivity |].
    cbn [flat_map map]. now rewrite IH.
  - intros n t. apply from_rdf_graph_records.
Qed.

Lemma records_eq {A} (m : Py A) s a a' w w' :
  a = a' -> w = w' -> records m s a w -> records m s a' w'.
Proof. now intros -> ->. Qed.

Lemma record_set_scope_records g dataset record_set acc s :
  records (record_set_scope schema g dataset record_set acc) s
          (acc ++ scope_nodes schema g record_set)
          (scope_issues schema g dataset record_set (local_context s)).
Proof.
  unfold record_set_scope, scope_nodes, scope_issues.
  apply records_with_context.
  fold (scope_context dataset record_set (local_context s)).
  set (c' := scope_context dataset record_set (local_context s)).
  eapply records_bind; [apply children_nodes_records |].
  cbn [local_context log].
  eapply records_bind with (a := tt) (w := no_field_error schema g record_set c').
  - unfold no_field_error.
    destruct (Nat.eqb (length (child_list schema g record_set ML_COMMONS_FIELD)) 0).
    + apply records_add_error.
    + apply records_ret.
  - cbn [local_context log].
    eapply records_eq;
      [| | apply records_for_each with
             (r := fun field => child_list schema g field ML_COMMONS_SUB_FIELD)
             (w := fun field c =>
                     child_issues schema g field ML_COMMONS_SUB_FIELD c)].
    + now rewrite app_assoc.
    + reflexivity.
    + intros field nodes t.
      apply records_bind_ret with (f := fun sub_fields => nodes ++ sub_fields).
      apply children_nodes_records.
Qed.

Lemma _find_entry_object_run g s :
  _find_entry_object g s =
  (match sources g with
   | x :: _ => Return x
   | [] => Raise IndexError
   end,
   mkIssues (log s ++ entry_issues g (local_context s)) (local_context s)).
Proof.
  unfold _find_entry_object, entry_issues, bind.
  destruct (Nat.eqb (length (sources g)) 1); simpl;
    destruct (sources g); simpl; unfold ret, raise;
    now rewrite ?issues_eta.
Qed.

Lemma check_rdf_graph_records g s source rest :
  sources g = source :: rest ->
  records (check_rdf_graph schema g) s
          (walk_nodes schema g source)
          (entry_issues g (local_context s) ++
           walk_issues schema g source (local_context s)).
Proof.
  intros Hs. unfold check_rdf_graph, walk_nodes, walk_issues.
  set (metadata := construct schema g source VMetadata).
  eapply records_bind.
  - unfold records. rewrite _find_entry_object_run, Hs. reflexivity.
  - cbn [local_context log].
    eapply records_bind;
      [run_at_state (from_rdf_graph_records g source VMetadata) |].
    fold metadata. cbn [local_context log].
    eapply records_bind.
    + apply records_with_context.
      apply records_bind_ret with (f := fun ds => [metadata] ++ ds).
      apply children_nodes_records.
    + cbn [local_context log].
      eapply records_bind;
        [run_at_state (children_nodes_records g metadata ML_COMMONS_RECORD_SET) |].
      cbn [local_context log].
      eapply records_eq;
        [| | apply records_bind_ret with (f := fun nodes : list Node => nodes);
             match goal with
             | |- records _ ?t _ _ =>
                 exact (@records_for_each _ _ _ _
                          (scope_nodes schema g)
                          (fun rs c =>
                             scope_issues schema g (name metadata) rs c)
                          (fun rs acc u =>
                             record_set_scope_records g (name metadata) rs acc u)
                          _ t)
             end].
      * now rewrite <- !app_assoc.
      * reflexivity.
Qed.

(** Without an entry candidate the walk ends at the resolver. *)
Lemma check_rdf_graph_raises g s :
  sources g = [] ->
  check_rdf_graph schema g s =
  (Raise IndexError,
   mkIssues (log s ++ [mkIssue Error MORE_THAN_ONE_DATASET (local_context s)])
            (local_context s)).
Proof.
  intros Hs. unfold check_rdf_graph.
  erewrite bind_raise; [reflexivity |].
  rewrite _find_entry_object_run. unfold entry_issues. now rewrite Hs.
Qed.

Lemma appended_records {A} (m : Py A) s a w :
  records m s a w -> appended s (snd (m s)) = w.
Proof.
  unfold records, appended; intros ->; simpl.
  now rewrite skipn_app, skipn_all, Nat.sub_diag.
Qed.

End Runs.

(** ** The entry resolver *)

Lemma sources_filter g :
  sources g =
  filter (fun n => Nat.eqb (in_degree g n) 0 && is_BNode n) (nodes g).
Proof.
  unfold sources, in_degree_view.
  induction (nodes g) as [|n ns IH]; simpl; [reflexivity |].
  destruct (Nat.eqb (in_degree g n) 0 && is_BNode n); simpl; now rewrite IH.
Qed.

Lemma In_sources g n : In n (sources g) <-> entry_candidate g n.
Proof.
  rewrite sources_filter, filter_In, andb_true_iff, Nat.eqb_eq.
  unfold entry_candidate; tauto.
Qed.

Lemma NoDup_sources g : NoDup (nodes g) -> NoDup (sources g).
Proof. rewrite sources_filter. apply NoDup_filter. Qed.

Lemma sources_singleton g n :
  NoDup (nodes g) ->
  entry_candidate g n ->
  (forall n', entry_candidate g n' -> n' = n) ->
  sources g = [n].
Proof.
  intros Hnd Hn Huniq.
  pose proof (NoDup_sources g Hnd) as Hs.
  assert (Hall : forall x, In x (sources g) -> x = n)
    by (intros x Hx; apply Huniq, In_sources, Hx).
  apply In_sources in Hn.
  destruct (sources g) as [|x [|y l]].
  - destruct Hn.
  - f_equal. apply Hall. now left.
  - exfalso. inversion Hs as [|? ? Hnotin _]; subst.
    apply Hnotin. left.
    rewrite (Hall x), (Hall y); simpl; auto.
Qed.

Lemma sources_not_singleton g :
  (forall n, ~ entry_candidate g n) \/
  (exists n n', n <> n' /\ entry_candidate g n /\ entry_candidate g n') ->
  length (sources g) <> 1.
Proof.
  intros [Hnone | (n & n' & Hneq & Hn & Hn')] Hlen;
    destruct (sources g) as [|x [|y l]] eqn:E; try discriminate.
  - apply (Hnone x), In_sources. rewrite E. now left.
  - apply In_sources in Hn, Hn'. rewrite E in Hn, Hn'.
    destruct Hn as [<-|[]], Hn' as [<-|[]]. now apply Hneq.
Qed.

(** C2.  On a graph with exactly one blank node of in-degree 0,
    [_find_entry_object] returns that node and leaves the collector as it
    was; on a graph with none, or with two or more, it appends exactly one
    issue to the collector, the structural error of the entry resolver. *)
Theorem find_entry_unique_or_one_error (g : MultiDiGraph) (s : Issues) :
  NoDup (nodes g) ->
  (forall n,
      entry_candidate g n ->
      (forall n', entry_candidate g n' -> n' = n) ->
      _find_entry_object g s = (Return n, s)) /\
  ((forall n, ~ entry_candidate g n) \/
   (exists n n', n <> n' /\ entry_candidate g n /\ entry_candidate g n') ->
   let e := mkIssue Error MORE_THAN_ONE_DATASET (local_context s) in
   log (snd (_find_entry_object g s)) = log s ++ [e] /\
   is_structural e = true /\
   local_context (snd (_find_entry_object g s)) = local_context s).
Proof.
  intros Hnd; split.
  - intros n Hn Huniq.
    rewrite _find_entry_object_run. unfold entry_issues.
    rewrite (sources_singleton g n Hnd Hn Huniq); simpl.
    now rewrite issues_eta.
  - intros Hcase e.
    apply sources_not_singleton in Hcase.
    rewrite _find_entry_object_run. unfold entry_issues; simpl.
    destruct (Nat.eqb_spec (length (sources g)) 1) as [E|_];
      [contradiction | repeat split].
Qed.

Lemma find_entry_unique_or_one_error_witness :
  _find_entry_object unnamed_record_set fresh_issues = (Return m_, fresh_issues).
Proof.
  assert (Hnd : NoDup (nodes unnamed_record_set)) by (simpl; nodup_terms).
  apply (proj1 (find_entry_unique_or_one_error unnamed_record_set fresh_issues Hnd)).
  - repeat split; simpl; auto.
  - intros n' (Hin & Hdeg & Hb). simpl in Hin.
    repeat (destruct Hin as [<- | Hin]; try reflexivity; try discriminate).
    destruct Hin.
Defined.

(** Whenever no blank node is without a parent, the resolver records its
    error and raises at [sources[0]]. *)
Lemma _find_entry_object_raises g s :
  sources g = [] ->
  _find_entry_object g s =
  (Raise IndexError,
   mkIssues (log s ++ [mkIssue Error MORE_THAN_ONE_DATASET (local_context s)])
            (local_context s)).
Proof.
  intros Hs. rewrite _find_entry_object_run. unfold entry_issues.
  now rewrite Hs.
Qed.

(** C3.  On the graph of a dataset whose top node carries an IRI there is no
    blank node of in-degree 0: [_find_entry_object] records the error and
    then raises [IndexError] at [sources[0]]; it returns nothing, and so
    does [check_rdf_graph]. *)
Theorem find_entry_raises_without_candidate :
  sources iri_dataset = [] /\
  _find_entry_object iri_dataset fresh_issues =
  (Raise IndexError,
   mkIssues [mkIssue Error MORE_THAN_ONE_DATASET empty_context] empty_context) /\
  fst (check_rdf_graph sample_schema iri_dataset fresh_issues) =
  Raise IndexError.
Proof.
  split; [reflexivity |]. split.
  - exact (_find_entry_object_raises iri_dataset fresh_issues eq_refl).
  - reflexivity.
Qed.

(** ** The hierarchy walker *)

Section Walker.

Variable schema : Schema.

Lemma check_rdf_graph_returns g s source rest :
  sources g = source :: rest ->
  fst (check_rdf_graph schema g s) = Return (walk_nodes schema g source).
Proof.
  intros Hs. now rewrite (check_rdf_graph_records schema g s _ _ Hs).
Qed.

Lemma check_rdf_graph_appended g s source rest :
  sources g = source :: rest ->
  appended s (snd (check_rdf_graph schema g s)) =
  entry_issues g (local_context s) ++
  walk_issues schema g source (local_context s).
Proof.
  intros Hs.
  exact (appended_records _ s _ _ (check_rdf_graph_records schema g s _ _ Hs)).
Qed.

Lemma children_nodes_returns g parent p s :
  fst (children_nodes schema g parent p s) =
  Return (child_list schema g parent p).
Proof. now rewrite (children_nodes_records schema g parent p s). Qed.

Lemma from_rdf_graph_returns g n v s :
  fst (from_rdf_graph schema g n v s) = Return (construct schema g n v).
Proof. now rewrite (from_rdf_graph_records schema g n v s). Qed.

End Walker.




(** ** What the issues of a walk look like *)

Lemma filter_flat_map {A B} (P : B -> bool) (f : A -> list B) (l : list A) :
  filter P (flat_map f l) = flat_map (fun x => filter P (f x)) l.
Proof.
  induction l as [|x l IH]; simpl; [reflexivity |].
  now rewrite filter_app, IH.
Qed.

Lemma flat_map_nil {A B} (f : A -> list B) (l : list A) :
  (forall x, f x = []) -> flat_map f l = [].
Proof.
  intros H; induction l as [|x l IH]; simpl; [reflexivity |].
  now rewrite H, IH.
Qed.

Lemma Forall_flat_map {A B} (P : B -> Prop) (f : A -> list B) (l : list A) :
  (forall x, In x l -> Forall P (f x)) -> Forall P (flat_map f l).
Proof.
  intros H; induction l as [|x l IH]; simpl; [constructor |].
  apply Forall_app; split; [apply H; now left |].
  apply IH; intros y Hy; apply H; now right.
Qed.

Lemma filter_none {A} (P : A -> bool) (l : list A) :
  Forall (fun x => P x = false) l -> filter P l = [].
Proof.
  induction 1 as [|x l Hx _ IH]; simpl; [reflexivity |].
  now rewrite Hx.
Qed.

Section IssuesOfAWalk.

Variable schema : Schema.

Lemma node_issues_not_structural self c :
  Forall (fun i => is_structural i = false) (node_issues schema self c).
Proof.
  unfold node_issues, mandatory_errors, optional_warnings.
  apply Forall_app; split; apply Forall_forall; intros i Hi;
    apply in_map_iff in Hi; destruct Hi as (x & <- & _); reflexivity.
Qed.

Lemma is_no_field_structural i : is_structural i = false -> is_no_field i = false.
Proof.
  unfold is_structural, is_no_field.
  destruct (is_error i); simpl; [| reflexivity].
  now intros H; apply orb_false_iff in H.
Qed.

Lemma child_issues_not_structural g parent p c :
  Forall (fun i => is_structural i = false) (child_issues schema g parent p c).
Proof.
  unfold child_issues. apply Forall_flat_map.
  intros; apply node_issues_not_structural.
Qed.

(** A predicate that holds of no property issue selects, in a walk, the
    no-field errors it holds of. *)
Lemma filter_walk_issues (P : Issue -> bool) g source c :
  (forall i, is_structural i = false -> P i = false) ->
  let metadata := construct schema g source VMetadata in
  filter P (walk_issues schema g source c) =
  flat_map (fun rs =>
              filter P (no_field_error schema g rs
                                       (scope_context (name metadata) rs c)))
           (child_list schema g metadata ML_COMMONS_RECORD_SET).
Proof.
  intros HP metadata.
  assert (Hnode : forall self c', filter P (node_issues schema self c') = []).
  { intros. apply filter_none.
    eapply Forall_impl; [| apply node_issues_not_structural]. exact HP. }
  assert (Hchild : forall parent p c',
             filter P (child_issues schema g parent p c') = []).
  { intros. apply filter_none.
    eapply Forall_impl; [| apply child_issues_not_structural]. exact HP. }
  unfold walk_issues. fold metadata.
  rewrite !filter_app, Hnode, !Hchild, filter_flat_map. simpl.
  apply flat_map_ext. intros rs.
  unfold scope_issues.
  rewrite !filter_app, Hchild, filter_flat_map.
  rewrite (flat_map_nil _ _ (fun field => Hchild field _ _)).
  now rewrite app_nil_r.
Qed.

Lemma child_list_construct g n v p :
  child_list schema g (construct schema g n v) p =
  map (fun c => construct schema g c (child_variant p)) (children schema g n p).
Proof. reflexivity. Qed.

Lemma child_list_nil g parent p :
  children schema g (node parent) p = [] -> child_list schema g parent p = [].
Proof. unfold child_list. now intros ->. Qed.

Lemma child_issues_nil g parent p c :
  children schema g (node parent) p = [] -> child_issues schema g parent p c = [].
Proof. unfold child_issues. intros H. now rewrite (child_list_nil _ _ _ H). Qed.

Lemma scope_issues_no_field g dataset rs c :
  children schema g (node rs) ML_COMMONS_FIELD = [] ->
  scope_issues schema g dataset rs c =
  [mkIssue Error NO_FIELD
           (mkContext (Some dataset) (distribution_name c)
                      (Some (name rs)) (Some ""))].
Proof.
  intros H. unfold scope_issues, no_field_error.
  now rewrite (child_issues_nil _ _ _ _ H), (child_list_nil _ _ _ H).
Qed.

Lemma scope_nodes_no_field g rs :
  children schema g (node rs) ML_COMMONS_FIELD = [] ->
  scope_nodes schema g rs = [].
Proof.
  intros H. unfold scope_nodes. now rewrite (child_list_nil _ _ _ H).
Qed.

End IssuesOfAWalk.

(** C1.  On a graph whose entry is [m], with distributions [d1; d2], record
    sets [r1; r2], fields [a; b] under [r1], no field under [r2] and no
    sub-field, [check_rdf_graph] returns the materialized nodes
    [M; D1; D2; R1; R2; A; B] in that order, and the structural errors among
    the issues it records are exactly one: the no-field error of [R2]. *)
Theorem check_rdf_graph_traversal_order
        (schema : Schema) (g : MultiDiGraph) (s : Issues)
        (m d1 d2 r1 r2 a b : Term) :
  sources g = [m] ->
  children schema g m SCHEMA_ORG_DISTRIBUTION = [d1; d2] ->
  children schema g m ML_COMMONS_RECORD_SET = [r1; r2] ->
  children schema g r1 ML_COMMONS_FIELD = [a; b] ->
  children schema g r2 ML_COMMONS_FIELD = [] ->
  children schema g a ML_COMMONS_SUB_FIELD = [] ->
  children schema g b ML_COMMONS_SUB_FIELD = [] ->
  let M := construct schema g m VMetadata in
  let D1 := construct schema g d1 VDistribution in
  let D2 := construct schema g d2 VDistribution in
  let R1 := construct schema g r1 VRecordSet in
  let R2 := construct schema g r2 VRecordSet in
  let A := construct schema g a VField in
  let B := construct schema g b VField in
  fst (check_rdf_graph schema g s) = Return [M; D1; D2; R1; R2; A; B] /\
  filter is_structural (appended s (snd (check_rdf_graph schema g s))) =
  [mkIssue Error NO_FIELD
           (mkContext (Some (name M)) (distribution_name (local_context s))
                      (Some (name R2)) (Some ""))].
Proof.
  intros Hs Hd Hr Hf1 Hf2 Ha Hb M D1 D2 R1 R2 A B. split.
  - rewrite (check_rdf_graph_returns schema g s _ _ Hs).
    unfold walk_nodes, scope_nodes.
    rewrite !child_list_construct, Hd, Hr. cbn [map flat_map child_variant].
    rewrite !child_list_construct, Hf1, Hf2. cbn [map flat_map child_variant].
    rewrite !child_list_construct, Ha, Hb. reflexivity.
  - rewrite (check_rdf_graph_appended schema g s _ _ Hs).
    unfold entry_issues. rewrite Hs. cbn [length Nat.eqb app].
    rewrite filter_walk_issues by auto.
    rewrite child_list_construct, Hr. cbn [map flat_map child_variant].
    unfold no_field_error.
    rewrite !child_list_construct, Hf1, Hf2. reflexivity.
Qed.

Lemma check_rdf_graph_traversal_order_witness :
  fst (check_rdf_graph sample_schema titanic fresh_issues) =
  Return [ construct sample_schema titanic m_ VMetadata;
           construct sample_schema titanic d1_ VDistribution;
           construct sample_schema titanic d2_ VDistribution;
           construct sample_schema titanic r1_ VRecordSet;
           construct sample_schema titanic r2_ VRecordSet;
           construct sample_schema titanic a_ VField;
           construct sample_schema titanic b_ VField ] /\
  filter is_structural
         (appended fresh_issues
                   (snd (check_rdf_graph sample_schema titanic fresh_issues))) =
  [mkIssue Error NO_FIELD (mkContext (Some "Titanic") None (Some "r2") (Some ""))].
Proof.
  exact (check_rdf_graph_traversal_order
           sample_schema titanic fresh_issues m_ d1_ d2_ r1_ r2_ a_ b_
           eq_refl eq_refl eq_refl eq_refl eq_refl eq_refl eq_refl).
Defined.

(** C5, as the code has it.  The node list is the metadata node, then the
    distributions, then all the record sets, and only then, for each record
    set in turn, its fields followed by the sub-fields of those fields; the
    lists are those [children_nodes] returns. *)
Theorem check_rdf_graph_record_sets_before_all_fields
        (schema : Schema) (g : MultiDiGraph) (s : Issues)
        (source : Term) (rest : list Term) :
  sources g = source :: rest ->
  let metadata := construct schema g source VMetadata in
  let record_sets := child_list schema g metadata ML_COMMONS_RECORD_SET in
  let fields rs := child_list schema g rs ML_COMMONS_FIELD in
  let sub_fields f := child_list schema g f ML_COMMONS_SUB_FIELD in
  (forall parent p t,
      fst (children_nodes schema g parent p t) =
      Return (child_list schema g parent p)) /\
  fst (check_rdf_graph schema g s) =
  Return ([metadata] ++
          child_list schema g metadata SCHEMA_ORG_DISTRIBUTION ++
          record_sets ++
          flat_map (fun rs => fields rs ++ flat_map sub_fields (fields rs))
                   record_sets).
Proof.
  intros Hs metadata record_sets fields sub_fields. split.
  - intros. apply children_nodes_returns.
  - now rewrite (check_rdf_graph_returns schema g s _ _ Hs).
Qed.

Lemma check_rdf_graph_record_sets_before_all_fields_witness :
  fst (check_rdf_graph sample_schema titanic fresh_issues) =
  Return [ construct sample_schema titanic m_ VMetadata;
           construct sample_schema titanic d1_ VDistribution;
           construct sample_schema titanic d2_ VDistribution;
           construct sample_schema titanic r1_ VRecordSet;
           construct sample_schema titanic r2_ VRecordSet;
           construct sample_schema titanic a_ VField;
           construct sample_schema titanic b_ VField ].
Proof.
  exact (proj2 (check_rdf_graph_record_sets_before_all_fields
                  sample_schema titanic fresh_issues m_ [] eq_refl)).
Defined.

(** C5, as stated, fails: in the walk of [titanic] the record set r2 stands
    between the record set r1 and the fields of r1. *)
Lemma record_sets_precede_their_fields_fails :
  ~ record_sets_precede_their_fields sample_schema titanic fresh_issues.
Proof.
  intros H.
  specialize (H m_ [] _ (construct sample_schema titanic r1_ VRecordSet)
                eq_refl (le_n 2) eq_refl (or_introl eq_refl)).
  destruct H as (pre & post & E). vm_compute in E.
  do 7 (destruct pre as [|? pre]; [discriminate E | injection E as _ E]).
  destruct pre; discriminate E.
Qed.

Lemma length_flat_map_no_field schema g dataset c (P : Issue -> bool)
      (record_sets : list Node) :
  (forall c', P (mkIssue Error NO_FIELD c') = true) ->
  length (flat_map (fun rs =>
                      filter P (no_field_error schema g rs
                                               (scope_context dataset rs c)))
                   record_sets) =
  length (filter (fun rs =>
                    Nat.eqb (length (children schema g (node rs) ML_COMMONS_FIELD)) 0)
                 record_sets).
Proof.
  intros HP. induction record_sets as [|rs l IH]; simpl; [reflexivity |].
  rewrite length_app, IH. unfold no_field_error, child_list.
  rewrite length_map.
  destruct (Nat.eqb (length (children schema g (node rs) ML_COMMONS_FIELD)) 0);
    simpl; [now rewrite HP | reflexivity].
Qed.

(** C6.  For a record set of the walk whose field list is empty: its scope
    records exactly one issue, the no-field error, whose context holds the
    name of the metadata node, the name of the record set and the empty field
    name (and nothing else when the collector started without a context);
    that error is among the diagnostics of [check_rdf_graph], which hold one
    no-field error per record set without fields; and the record set is in
    the node list returned. *)
Theorem check_rdf_graph_no_field_error
        (schema : Schema) (g : MultiDiGraph) (s : Issues)
        (source : Term) (rest : list Term) (record_set : Node) :
  sources g = source :: rest ->
  let metadata := construct schema g source VMetadata in
  let record_sets := child_list schema g metadata ML_COMMONS_RECORD_SET in
  In record_set record_sets ->
  children schema g (node record_set) ML_COMMONS_FIELD = [] ->
  let c := local_context s in
  let e := mkIssue Error NO_FIELD
                   (mkContext (Some (name metadata)) (distribution_name c)
                              (Some (name record_set)) (Some "")) in
  let final := check_rdf_graph schema g s in
  (forall nodes t,
      local_context t = c ->
      record_set_scope schema g (name metadata) record_set nodes t =
      (Return nodes, mkIssues (log t ++ [e]) c)) /\
  In e (appended s (snd final)) /\
  length (filter is_no_field (appended s (snd final))) =
  length (filter (fun rs =>
                    Nat.eqb (length (children schema g (node rs) ML_COMMONS_FIELD)) 0)
                 record_sets) /\
  (exists nodes, fst final = Return nodes /\ In record_set nodes) /\
  (c = empty_context ->
   context e =
   mkContext (Some (name metadata)) None (Some (name record_set)) (Some "")).
Proof.
  intros Hs metadata record_sets Hin Hnone c e final.
  unfold final. repeat split.
  - intros nodes t Ht.
    pose proof (record_set_scope_records
                  schema g (name metadata) record_set nodes t) as H.
    unfold records in H. rewrite H.
    rewrite (scope_nodes_no_field _ _ _ Hnone), app_nil_r.
    rewrite (scope_issues_no_field _ _ _ _ _ Hnone), Ht. reflexivity.
  - rewrite (check_rdf_graph_appended schema g s _ _ Hs).
    apply in_or_app; right. unfold walk_issues.
    do 3 (apply in_or_app; right).
    apply in_flat_map. exists record_set. split; [exact Hin |].
    rewrite (scope_issues_no_field _ _ _ _ _ Hnone). now left.
  - rewrite (check_rdf_graph_appended schema g s _ _ Hs), filter_app.
    replace (filter is_no_field (entry_issues g (local_context s)))
      with (@nil Issue)
      by (unfold entry_issues; now destruct (Nat.eqb (length (sources g)) 1)).
    rewrite filter_walk_issues by apply is_no_field_structural.
    now apply length_flat_map_no_field.
  - exists (walk_nodes schema g source). split.
    + apply (check_rdf_graph_returns schema g s _ _ Hs).
    + unfold walk_nodes. fold metadata. fold record_sets.
      rewrite !in_app_iff. right; right; left. exact Hin.
  - intros Hc. unfold e. now rewrite Hc.
Qed.

Lemma check_rdf_graph_no_field_error_witness :
  In (mkIssue Error NO_FIELD
              (mkContext (Some "Titanic") None (Some "r2") (Some "")))
     (appended fresh_issues
               (snd (check_rdf_graph sample_schema titanic fresh_issues))) /\
  exists nodes,
    fst (check_rdf_graph sample_schema titanic fresh_issues) = Return nodes /\
    In (construct sample_schema titanic r2_ VRecordSet) nodes.
Proof.
  pose proof (check_rdf_graph_no_field_error
                sample_schema titanic fresh_issues m_ []
                (construct sample_schema titanic r2_ VRecordSet)
                eq_refl (or_intror (or_introl eq_refl)) eq_refl)
    as (_ & Hin & _ & Hnodes & _).
  split; [exact Hin | exact Hnodes].
Defined.

(** C7.  On [unnamed_children] the distribution and the record set both
    lack their mandatory name.  The walk is past the entry resolver and the
    metadata node without an issue; the error of the distribution, recorded
    inside the first [with] block, carries dataset_name = "Titanic"; the
    error of the record set, recorded by the call that stands between the
    two [with] blocks, carries no dataset_name. *)
Theorem record_set_error_lacks_dataset_name :
  name (construct sample_schema unnamed_children m_ VMetadata) = "Titanic" /\
  entry_issues unnamed_children empty_context ++
  node_issues sample_schema
              (construct sample_schema unnamed_children m_ VMetadata)
              empty_context = [] /\
  log (snd (check_rdf_graph sample_schema unnamed_children fresh_issues)) =
  [ mkIssue Error (mandatory_message "name")
            (mkContext (Some "Titanic") (Some "") None None);
    mkIssue Error (mandatory_message "name") empty_context ] /\
  ~ errors_after_push_name_dataset sample_schema unnamed_children fresh_issues.
Proof.
  repeat split.
  intros H.
  specialize (H m_ []
                (mkIssue Error (mandatory_message "name") empty_context)
                eq_refl (or_intror (or_introl eq_refl)) eq_refl).
  vm_compute in H. discriminate H.
Qed.

(** ** Materialization and the mandatory contract *)

Lemma lookup_map (F : string -> option string -> option string) p l :
  lookup p (map (fun fd => (fst fd, F (fst fd) (snd fd))) l) =
  option_map (F p) (lookup p l).
Proof.
  induction l as [|[k d] l IH]; simpl; [reflexivity |].
  destruct (String.eqb_spec k p) as [->|_]; [reflexivity | exact IH].
Qed.

Lemma getattr_construct schema g n v p :
  getattr (construct schema g n v) p =
  match lookup p (fields_of schema v) with
  | Some d =>
      match resolve schema g n p with
      | Some s => Some s
      | None => d
      end
  | None => None
  end.
Proof.
  unfold getattr, construct; cbn [attrs].
  rewrite (lookup_map (fun f d => match resolve schema g n f with
                                  | Some s => Some s
                                  | None => d
                                  end)).
  now destruct (lookup p (fields_of schema v)).
Qed.

Lemma mandatory_message_eqb q p :
  String.eqb (mandatory_message q) (mandatory_message p) = String.eqb q p.
Proof. reflexivity. Qed.

Lemma filter_eqb_absent (f : string -> bool) p l :
  existsb (String.eqb p) l = false ->
  filter (fun q => String.eqb q p) (filter f l) = [].
Proof.
  induction l as [|x l IH]; simpl; [reflexivity |].
  intros H. apply orb_false_iff in H. destruct H as [Hx Hl].
  destruct (f x); simpl; [rewrite String.eqb_sym, Hx |]; now apply IH.
Qed.

Lemma count_in_no_repeat (f : string -> bool) p l :
  no_repeat l = true ->
  In p l ->
  length (filter (fun q => String.eqb q p) (filter f l)) =
  if f p then 1 else 0.
Proof.
  induction l as [|x l IH]; simpl; [intros _ [] |].
  intros H Hin. apply andb_true_iff in H. destruct H as [Hx Hl].
  apply negb_true_iff in Hx.
  destruct Hin as [->|Hin].
  - destruct (f p); simpl.
    + now rewrite String.eqb_refl, (filter_eqb_absent f p l Hx).
    + now rewrite (filter_eqb_absent f p l Hx).
  - assert (Hne : String.eqb x p = false).
    { destruct (String.eqb_spec x p) as [->|]; [| reflexivity].
      assert (existsb (String.eqb p) l = true)
        by (apply existsb_exists; exists p; split;
            [exact Hin | apply String.eqb_refl]).
      congruence. }
    destruct (f x); simpl; [rewrite Hne |]; now apply IH.
Qed.

Lemma filter_property_error_node_issues schema self c p :
  filter (is_property_error p) (node_issues schema self c) =
  map (fun q => mkIssue Error (mandatory_message q) c)
      (filter (fun q => String.eqb q p)
              (missing self (mandatory_of schema (variant self)))).
Proof.
  unfold node_issues, mandatory_errors, optional_warnings.
  rewrite filter_app.
  replace (filter (is_property_error p)
                  (map (fun m => mkIssue Warning m c) _)) with (@nil Issue).
  - rewrite app_nil_r.
    induction (missing self (mandatory_of schema (variant self))) as [|q l IH];
      simpl; [reflexivity |].
    unfold is_property_error at 1. cbn [is_error severity message andb].
    rewrite mandatory_message_eqb.
    destruct (String.eqb q p); simpl; now rewrite IH.
  - symmetry. apply filter_none, Forall_forall. intros i Hi.
    apply in_map_iff in Hi. now destruct Hi as (m & <- & _).
Qed.

Lemma filter_error_node_issues schema self c :
  filter is_error (node_issues schema self c) =
  mandatory_errors self (mandatory_of schema (variant self)) c.
Proof.
  unfold node_issues. rewrite filter_app.
  replace (filter is_error (optional_warnings schema self _ c)) with (@nil Issue).
  - rewrite app_nil_r. unfold mandatory_errors.
    induction (missing self (mandatory_of schema (variant self))) as [|q l IH];
      simpl; [reflexivity | now rewrite IH].
  - symmetry. apply filter_none, Forall_forall. intros i Hi.
    apply in_map_iff in Hi. now destruct Hi as (m & <- & _).
Qed.

Lemma falsy_getattr_construct schema g n v p :
  defaults_empty schema v = true ->
  In p (mandatory_of schema v) ->
  falsy (getattr (construct schema g n v) p) = falsy (resolve schema g n p) /\
  (resolve schema g n p = None ->
   lookup p (fields_of schema v) = Some (getattr (construct schema g n v) p)).
Proof.
  intros Hd Hin. unfold defaults_empty in Hd.
  rewrite forallb_forall in Hd. specialize (Hd p Hin).
  rewrite getattr_construct.
  destruct (lookup p (fields_of schema v)) as [d|]; [| discriminate].
  destruct (resolve schema g n p); [split; [reflexivity | discriminate] |].
  now rewrite Hd.
Qed.

(** C8.  For every node kind whose class is well declared, materialization
    returns the constructed node whatever is missing; for each mandatory
    field that the graph leaves absent or empty it records exactly one
    property error, which references that field by name, and the node holds
    an empty value for it (the declared default when the field is absent);
    for a mandatory field that is present it records none; and it records no
    other error. *)
Theorem materialize_reports_each_missing_mandatory
        (schema : Schema) (g : MultiDiGraph) (n : Term) (v : Variant)
        (s : Issues) :
  well_declared schema v = true ->
  let self := construct schema g n v in
  let recorded := appended s (snd (from_rdf_graph schema g n v s)) in
  let absent_or_empty p := falsy (resolve schema g n p) in
  fst (from_rdf_graph schema g n v s) = Return self /\
  variant self = v /\
  node self = n /\
  (forall p,
      In p (mandatory_of schema v) ->
      absent_or_empty p = true ->
      length (filter (is_property_error p) recorded) = 1 /\
      In (mkIssue Error (mandatory_message p) (local_context s)) recorded /\
      falsy (getattr self p) = true /\
      (resolve schema g n p = None ->
       lookup p (fields_of schema v) = Some (getattr self p))) /\
  (forall p,
      In p (mandatory_of schema v) ->
      absent_or_empty p = false ->
      filter (is_property_error p) recorded = []) /\
  length (filter is_error recorded) =
  length (filter absent_or_empty (mandatory_of schema v)).
Proof.
  intros Hwd self recorded absent_or_empty.
  apply andb_true_iff in Hwd. destruct Hwd as [Hnr Hde].
  assert (Hrec : recorded = node_issues schema self (local_context s))
    by exact (appended_records _ s _ _ (from_rdf_graph_records schema g n v s)).
  assert (Hcount : forall p,
             In p (mandatory_of schema v) ->
             length (filter (is_property_error p) recorded) =
             if absent_or_empty p then 1 else 0).
  { intros p Hp. rewrite Hrec, filter_property_error_node_issues, length_map.
    unfold missing, self. cbn [variant construct].
    rewrite (count_in_no_repeat _ p _ Hnr Hp). cbv beta.
    fold (construct schema g n v).
    now rewrite (proj1 (falsy_getattr_construct schema g n v p Hde Hp)). }
  split; [apply from_rdf_graph_returns |].
  split; [reflexivity |]. split; [reflexivity |].
  split; [| split].
  - intros p Hp Hmiss.
    destruct (falsy_getattr_construct schema g n v p Hde Hp) as [Hf Hdef].
    fold self in Hf, Hdef.
    split; [rewrite (Hcount p Hp); now rewrite Hmiss |].
    unfold absent_or_empty in Hmiss.
    split; [| split; [congruence | exact Hdef]].
    rewrite Hrec. unfold node_issues, mandatory_errors.
    apply in_or_app; left. apply in_map_iff. exists p. split; [reflexivity |].
    apply filter_In. split; [exact Hp | congruence].
  - intros p Hp Hpresent.
    apply length_zero_iff_nil. rewrite (Hcount p Hp). now rewrite Hpresent.
  - rewrite Hrec, filter_error_node_issues. unfold mandatory_errors, missing.
    rewrite length_map. unfold self. cbn [variant construct].
    fold (construct schema g n v).
    f_equal. apply filter_ext_in. intros p Hp.
    apply (falsy_getattr_construct schema g n v p Hde Hp).
Qed.

Lemma materialize_reports_each_missing_mandatory_witness :
  fst (from_rdf_graph sample_schema anonymous_dataset m_ VMetadata fresh_issues)
  = Return (Metadata m_ None None (Some "CC0") "" "") /\
  length (filter is_error
                 (appended fresh_issues
                           (snd (from_rdf_graph sample_schema anonymous_dataset
                                                m_ VMetadata fresh_issues)))) = 2.
Proof.
  pose proof (materialize_reports_each_missing_mandatory
                sample_schema anonymous_dataset m_ VMetadata fresh_issues
                eq_refl) as (Hret & _ & _ & _ & _ & Hlen).
  split; [exact Hret | exact Hlen].
Defined.

(** ** The Metadata dataclass *)

Lemma construct_Metadata schema g n :
  construct schema g n VMetadata =
  Metadata n
           (resolve schema g n "citation")
           (resolve schema g n "description")
           (resolve schema g n "license")
           (match resolve schema g n "name" with Some s => s | None => "" end)
           (match resolve schema g n "url" with Some s => s | None => "" end).
Proof.
  unfold construct, Metadata, fields_of, Metadata_fields. cbn [map fst snd].
  destruct (resolve schema g n "citation"), (resolve schema g n "description"),
    (resolve schema g n "license"), (resolve schema g n "name"),
    (resolve schema g n "url"); reflexivity.
Qed.






Lemma Metadata__post_init___records schema self s :
  records (Metadata__post_init__ schema self) s tt
          (mandatory_errors self ["name"; "url"] (local_context s) ++
           optional_warnings schema self ["citation"; "license"]
                             (local_context s)).
Proof.
  unfold Metadata__post_init__.
  eapply records_bind;
    [apply assert_has_mandatory_properties_records
    |exact (assert_has_optional_properties_records
              schema self _ (mkIssues (log s ++ _) (local_context s)))].
Qed.

(** C10.  [Metadata.__post_init__] checks name and url as mandatory and
    citation and license as optional, and nothing else: its errors are those
    of an empty name or url, its warnings the notices for citation and
    license.  The description is stored as given and is part of neither
    check: the issues recorded do not depend on it, and a node with a name
    and a url and no description records no error. *)
Theorem Metadata_post_init_checks
        (schema : Schema) (self : Node) (s : Issues) :
  let c := local_context s in
  let recorded := appended s (snd (Metadata__post_init__ schema self s)) in
  Metadata__post_init__ schema self s =
  (Return tt,
   mkIssues (log s ++
             mandatory_errors self ["name"; "url"] c ++
             optional_warnings schema self ["citation"; "license"] c) c) /\
  (forall i,
      In i recorded ->
      match severity i with
      | Error =>
          (message i = mandatory_message "name" /\
           falsy (getattr self "name") = true) \/
          (message i = mandatory_message "url" /\
           falsy (getattr self "url") = true)
      | Warning =>
          In (message i)
             (optional_notice schema "citation" (getattr self "citation") ++
              optional_notice schema "license" (getattr self "license"))
      end) /\
  (forall node citation description description' license name url,
      getattr (Metadata node citation description license name url)
              "description" = description /\
      Metadata__post_init__
        schema (Metadata node citation description license name url) s =
      Metadata__post_init__
        schema (Metadata node citation description' license name url) s) /\
  (forall node citation license name url,
      falsy (Some name) = false ->
      falsy (Some url) = false ->
      filter is_error
             (appended s (snd (Metadata__post_init__
                                 schema
                                 (Metadata node citation None license name url)
                                 s))) = []).
Proof.
  intros c recorded.
  assert (Hrun : forall self', Metadata__post_init__ schema self' s =
            (Return tt,
             mkIssues (log s ++
                       mandatory_errors self' ["name"; "url"] c ++
                       optional_warnings schema self' ["citation"; "license"] c)
                      c))
    by (intros self'; exact (Metadata__post_init___records schema self' s)).
  assert (Happ : forall self',
             appended s (snd (Metadata__post_init__ schema self' s)) =
             mandatory_errors self' ["name"; "url"] c ++
             optional_warnings schema self' ["citation"; "license"] c)
    by (intros self';
        exact (appended_records _ s _ _
                 (Metadata__post_init___records schema self' s))).
  split; [apply Hrun |]. split; [| split].
  - intros i Hi. unfold recorded in Hi. rewrite Happ in Hi.
    apply in_app_or in Hi. destruct Hi as [Hi | Hi].
    + unfold mandatory_errors, missing in Hi.
      apply in_map_iff in Hi. destruct Hi as (p & <- & Hp).
      apply filter_In in Hp. destruct Hp as [[<-|[<-|[]]] Hf]; simpl; auto.
    + unfold optional_warnings in Hi.
      apply in_map_iff in Hi. destruct Hi as (m & <- & Hm).
      simpl in Hm. rewrite app_nil_r in Hm. exact Hm.
  - intros. split; [reflexivity |]. rewrite !Hrun. reflexivity.
  - intros node citation license name url Hname Hurl.
    rewrite Happ, filter_app. unfold mandatory_errors, missing.
    cbn [filter getattr lookup attrs Metadata String.eqb Ascii.eqb Bool.eqb].
    simpl in Hname, Hurl. simpl. rewrite Hname, Hurl. simpl.
    apply filter_none, Forall_forall. intros i Hi.
    apply in_map_iff in Hi. now destruct Hi as (m & <- & _).
Qed.

Lemma Metadata_post_init_checks_witness :
  filter is_error
         (appended fresh_issues
                   (snd (Metadata__post_init__
                           sample_schema
                           (Metadata m_ None None None "Titanic"
                                     "https://example.org/titanic")
                           fresh_issues))) = [].
Proof.
  exact (proj2 (proj2 (proj2
    (Metadata_post_init_checks sample_schema
       (Metadata m_ None None None "Titanic" "https://example.org/titanic")
       fresh_issues)))
    m_ None None "Titanic" "https://example.org/titanic" eq_refl eq_refl).
Defined.

(** ** Further properties of the entry resolver *)

Lemma filter_first {A} (P : A -> bool) (l : list A) x r :
  filter P l = x :: r ->
  exists pre post,
    l = pre ++ x :: post /\ P x = true /\ Forall (fun y => P y = false) pre.
Proof.
  induction l as [|a l IH]; simpl; [discriminate |].
  destruct (P a) eqn:Ha.
  - intros E. injection E as -> _.
    exists [], l. repeat split; [exact Ha | constructor].
  - intros E. destruct (IH E) as (pre & post & -> & Hx & Hpre).
    exists (a :: pre), post. repeat split; [exact Hx |].
    constructor; assumption.
Qed.

(** X1.  Whatever [_find_entry_object] returns is a blank node of the graph
    without incoming edge, and it is the first such node in the node order of
    the graph: no node before it is a blank node of in-degree 0. *)
Theorem find_entry_returns_first_candidate
        (g : MultiDiGraph) (s s' : Issues) (n : Term) :
  _find_entry_object g s = (Return n, s') ->
  entry_candidate g n /\
  exists pre post,
    nodes g = pre ++ n :: post /\
    forall x, In x pre -> ~ entry_candidate g x.
Proof.
  rewrite _find_entry_object_run. intros E.
  destruct (sources g) as [|x r] eqn:Hs; [discriminate |].
  injection E as -> _.
  split; [apply In_sources; rewrite Hs; now left |].
  rewrite sources_filter in Hs.
  destruct (filter_first _ _ _ _ Hs) as (pre & post & Hn & _ & Hpre).
  exists pre, post. split; [exact Hn |].
  intros y Hy (_ & Hdeg & Hb).
  rewrite Forall_forall in Hpre. specialize (Hpre y Hy). cbv beta in Hpre.
  rewrite Hdeg, Hb in Hpre. discriminate Hpre.
Qed.

Lemma find_entry_returns_first_candidate_witness :
  entry_candidate two_datasets (BNode "m1") /\
  exists pre post,
    nodes two_datasets = pre ++ BNode "m1" :: post /\
    forall x, In x pre -> ~ entry_candidate two_datasets x.
Proof.
  exact (find_entry_returns_first_candidate
           two_datasets fresh_issues
           (snd (_find_entry_object two_datasets fresh_issues))
           (BNode "m1") eq_refl).
Defined.

(** X2.  [_find_entry_object] raises exactly when the graph has no blank
    node of in-degree 0 (an empty graph, a graph of IRIs and literals only,
    blank nodes that all have a parent), and [IndexError] is the only
    exception it raises. *)
Theorem find_entry_raises_iff_no_candidate (g : MultiDiGraph) (s : Issues) :
  (fst (_find_entry_object g s) = Raise IndexError <->
   forall n, ~ entry_candidate g n) /\
  (forall e, fst (_find_entry_object g s) = Raise e -> e = IndexError).
Proof.
  rewrite _find_entry_object_run. cbn [fst].
  destruct (sources g) as [|x r] eqn:Hs; split.
  - split; [| reflexivity].
    intros _ n Hn. apply In_sources in Hn. rewrite Hs in Hn. destruct Hn.
  - intros e E. now injection E as <-.
  - split; [discriminate |].
    intros Hnone. exfalso. apply (Hnone x), In_sources. rewrite Hs. now left.
  - discriminate.
Qed.

(** ** Further properties of the hierarchy walker *)

(** X3.  [check_rdf_graph] raises exactly when the graph has no blank node
    of in-degree 0; it then raises [IndexError], its only exception, having
    recorded the entry error and nothing else.  On every other graph it
    returns a node list, which is not empty. *)
Theorem check_rdf_graph_raises_iff_no_candidate
        (schema : Schema) (g : MultiDiGraph) (s : Issues) :
  (fst (check_rdf_graph schema g s) = Raise IndexError <->
   forall n, ~ entry_candidate g n) /\
  (forall e,
      fst (check_rdf_graph schema g s) = Raise e ->
      e = IndexError /\
      log (snd (check_rdf_graph schema g s)) =
      log s ++ [mkIssue Error MORE_THAN_ONE_DATASET (local_context s)]) /\
  ((exists n, entry_candidate g n) ->
   exists metadata others,
     fst (check_rdf_graph schema g s) = Return (metadata :: others)).
Proof.
  destruct (sources g) as [|x r] eqn:Hs.
  - rewrite (check_rdf_graph_raises schema g s Hs). cbn [fst snd log].
    split; [| split].
    + split; [| reflexivity].
      intros _ n Hn. apply In_sources in Hn. rewrite Hs in Hn. destruct Hn.
    + intros e E. injection E as <-. now split.
    + intros (n & Hn). apply In_sources in Hn. rewrite Hs in Hn. destruct Hn.
  - rewrite (check_rdf_graph_returns schema g s _ _ Hs).
    split; [| split].
    + split; [discriminate |].
      intros Hnone. exfalso. apply (Hnone x), In_sources. rewrite Hs. now left.
    + discriminate.
    + intros _. unfold walk_nodes. do 2 eexists. reflexivity.
Qed.

Lemma check_rdf_graph_raises_iff_no_candidate_witness :
  exists metadata others,
    fst (check_rdf_graph sample_schema unnamed_record_set fresh_issues) =
    Return (metadata :: others).
Proof.
  apply (proj2 (proj2 (check_rdf_graph_raises_iff_no_candidate
                         sample_schema unnamed_record_set fresh_issues))).
  exists m_. repeat split; simpl; auto.
Defined.


Lemma twice_in_flat_map {A B} (f : A -> list B) l1 r1 l2 r2 l3 x :
  In x (f r1) ->
  In x (f r2) ->
  exists a b c, flat_map f (l1 ++ r1 :: l2 ++ r2 :: l3) = a ++ x :: b ++ x :: c.
Proof.
  intros H1 H2.
  apply in_split in H1. destruct H1 as (x1 & x2 & E1).
  apply in_split in H2. destruct H2 as (y1 & y2 & E2).
  exists (flat_map f l1 ++ x1), (x2 ++ flat_map f l2 ++ y1),
    (y2 ++ flat_map f l3).
  rewrite flat_map_app. cbn [flat_map]. rewrite flat_map_app. cbn [flat_map].
  rewrite E1, E2.
  repeat (rewrite <- app_assoc || rewrite <- app_comm_cons). reflexivity.
Qed.

(** X5.  The walker keeps no record of the nodes it has visited: a field
    that two record sets of the walk both have as a child is materialized
    once under each of them, and stands twice in the node list returned. *)
Theorem check_rdf_graph_shared_field_twice
        (schema : Schema) (g : MultiDiGraph) (s : Issues)
        (source : Term) (rest : list Term)
        (l1 l2 l3 : list Node) (r1 r2 : Node) (f : Term) :
  sources g = source :: rest ->
  child_list schema g (construct schema g source VMetadata)
             ML_COMMONS_RECORD_SET = l1 ++ r1 :: l2 ++ r2 :: l3 ->
  In f (children schema g (node r1) ML_COMMONS_FIELD) ->
  In f (children schema g (node r2) ML_COMMONS_FIELD) ->
  let field := construct schema g f VField in
  exists a b c,
    fst (check_rdf_graph schema g s) = Return (a ++ field :: b ++ field :: c).
Proof.
  intros Hs Hrs H1 H2 field.
  rewrite (check_rdf_graph_returns schema g s _ _ Hs).
  unfold walk_nodes. cbv zeta.
  assert (Hin : forall r,
             In f (children schema g (node r) ML_COMMONS_FIELD) ->
             In field (scope_nodes schema g r)).
  { intros r Hr. unfold scope_nodes, child_list.
    apply in_or_app; left. apply in_map_iff. exists f. now split. }
  destruct (twice_in_flat_map (scope_nodes schema g) l1 r1 l2 r2 l3 field
              (Hin r1 H1) (Hin r2 H2)) as (a & b & c & E).
  rewrite <- Hrs in E. rewrite E.
  exists (([construct schema g source VMetadata] ++
           child_list schema g (construct schema g source VMetadata)
                      SCHEMA_ORG_DISTRIBUTION ++
           child_list schema g (construct schema g source VMetadata)
                      ML_COMMONS_RECORD_SET) ++ a), b, c.
  now rewrite <- !app_assoc.
Qed.

Lemma check_rdf_graph_shared_field_twice_witness :
  exists a b c,
    fst (check_rdf_graph sample_schema shared_field fresh_issues) =
    Return (a ++ construct sample_schema shared_field a_ VField
              :: b ++ construct sample_schema shared_field a_ VField :: c).
Proof.
  exact (check_rdf_graph_shared_field_twice
           sample_schema shared_field fresh_issues m_ []
           [] [] []
           (construct sample_schema shared_field r1_ VRecordSet)
           (construct sample_schema shared_field r2_ VRecordSet)
           a_ eq_refl eq_refl (or_introl eq_refl) (or_introl eq_refl)).
Defined.

Lemma Term_eqb_refl (a : Term) : Term_eqb a a = true.
Proof. destruct a; simpl; apply String.eqb_refl. Qed.

Lemma In_distinct (l : list Term) x :
  In x (distinct l) -> In x l.
Proof.
  induction l as [|a l IH]; simpl; [tauto |].
  intros [-> | H]; [now left |].
  apply filter_In in H. right. now apply IH.
Qed.

Lemma children_have_parent schema g n p t :
  In t (children schema g n p) -> 0 < in_degree g t.
Proof.
  unfold children, out. intros H. apply In_distinct in H.
  apply in_map_iff in H. destruct H as (e & <- & He).
  apply filter_In in He. destruct He as [He _].
  unfold in_degree.
  assert (Hin : In e (filter (fun e' => Term_eqb (object e') (object e))
                             (edges g)))
    by (apply filter_In; split; [exact He | apply Term_eqb_refl]).
  destruct (filter _ (edges g)); [destruct Hin | simpl; lia].
Qed.

Lemma child_list_have_parent schema g parent p nd :
  In nd (child_list schema g parent p) -> 0 < in_degree g (node nd).
Proof.
  unfold child_list. intros H. apply in_map_iff in H.
  destruct H as (t & <- & Ht). cbn [node construct].
  exact (children_have_parent schema g _ p t Ht).
Qed.

(** X6.  Every node of the list returned, other than the metadata node at
    its head, was read from a term that some edge of the graph points to.
    So when several blank nodes have in-degree 0, only the first is walked:
    no node of the list is read from another of them. *)
Theorem check_rdf_graph_walks_only_first_dataset
        (schema : Schema) (g : MultiDiGraph) (s : Issues)
        (source : Term) (rest : list Term) :
  sources g = source :: rest ->
  exists others,
    fst (check_rdf_graph schema g s) =
    Return (construct schema g source VMetadata :: others) /\
    (forall nd, In nd others -> 0 < in_degree g (node nd)) /\
    (forall nd x, In nd others -> In x rest -> node nd <> x).
Proof.
  intros Hs. rewrite (check_rdf_graph_returns schema g s _ _ Hs).
  unfold walk_nodes. eexists. split; [reflexivity |].
  assert (Hparent : forall nd,
             In nd (child_list schema g (construct schema g source VMetadata)
                               SCHEMA_ORG_DISTRIBUTION ++
                    child_list schema g (construct schema g source VMetadata)
                               ML_COMMONS_RECORD_SET ++
                    flat_map (scope_nodes schema g)
                             (child_list schema g
                                         (construct schema g source VMetadata)
                                         ML_COMMONS_RECORD_SET)) ->
             0 < in_degree g (node nd)).
  { intros nd H.
    apply in_app_or in H. destruct H as [H | H];
      [exact (child_list_have_parent _ _ _ _ _ H) |].
    apply in_app_or in H. destruct H as [H | H];
      [exact (child_list_have_parent _ _ _ _ _ H) |].
    apply in_flat_map in H. destruct H as (rs & _ & H).
    unfold scope_nodes in H.
    apply in_app_or in H. destruct H as [H | H];
      [exact (child_list_have_parent _ _ _ _ _ H) |].
    apply in_flat_map in H. destruct H as (fd & _ & H).
    exact (child_list_have_parent _ _ _ _ _ H). }
  split; [exact Hparent |].
  intros nd x Hnd Hx E.
  assert (Hc : entry_candidate g x)
    by (apply In_sources; rewrite Hs; now right).
  destruct Hc as (_ & Hdeg & _).
  specialize (Hparent nd Hnd). rewrite E in Hparent. lia.
Qed.

Lemma check_rdf_graph_walks_only_first_dataset_witness :
  exists others,
    fst (check_rdf_graph sample_schema first_of_two_datasets fresh_issues) =
    Return (construct sample_schema first_of_two_datasets (BNode "m1") VMetadata
              :: others) /\
    others = [ construct sample_schema first_of_two_datasets r1_ VRecordSet;
               construct sample_schema first_of_two_datasets a_ VField ] /\
    (forall nd, In nd others -> 0 < in_degree first_of_two_datasets (node nd)) /\
    (forall nd x, In nd others -> In x [BNode "m2"] -> node nd <> x).
Proof.
  destruct (check_rdf_graph_walks_only_first_dataset
              sample_schema first_of_two_datasets fresh_issues
              (BNode "m1") [BNode "m2"] eq_refl)
    as (others & E & Hparent & Hother).
  exists others. repeat split; try assumption.
  pose proof E as E'. vm_compute in E'. injection E' as <-. reflexivity.
Defined.
